(** * FileCache: the server-side mirror of the editor's open files

    A shallow embedding of [pkg/nuclide-open-files-rpc/lib/FileCache.js].

    - The [Map] from paths to buffers is a [gmap]; a buffer object that the
      code mutates in place is written back under its path.  A [gmap] does
      not keep the order in which the paths were set: where the program
      iterates over the map, that order is an argument ([dispose]) or is
      left out of the statements ([observeFileEvents]).
    - [simple-text-buffer] is an npm dependency.  A buffer is its text and
      its [changeCount]; the constructor keeps the text it is given, every
      mutation ([setTextInRange], [setText]) bumps [changeCount] by one, and
      [setText] replaces the whole text.  How a range addresses the text is
      left to the package: the three range primitives are the members of
      the class [RangeOps].
    - Numbers are integers, in [Z]; [===] on numbers is [Z.eqb], on strings
      [String.eqb].  [onFileEvent] computes [changeCount - 1] and
      [changeCount++] exactly, which is what the program does as long as
      the version of the event is a safe integer (below 2^53 in absolute
      value).  JavaScript numbers are doubles, and beyond the safe integers
      those two operations round: [Doubles.onFileEvent] is the same
      function with that rounding, and [doubles_agree] relates the two.
    - [invariant(c)] throws when [c] is false.  A JavaScript function either
      returns or throws, and may have changed the cache before it throws:
      [Eff A] threads the cache and gives it back in both cases.
    - The [Subject] [_fileEvents] is modelled by what its observers have
      received.  The constructor subscribes the [FileVersionNotifier]
      ([_requests]); that class lives in another file and is not embedded
      here, so its state is the sequence of events it has been fed, and its
      answers are taken as inputs.  Later observers are kept in
      subscription order, each as the log of the events delivered to it.
    - A state describes a cache that has not been disposed: [dispose] is
      modelled up to its invariant, and the completion of the subjects that
      ends it is not recorded. *)

From stdpp Require Import base option numbers strings list gmap fin_maps.

Local Open Scope Z_scope.

Abbreviation NuclideUri := string (only parsing).

(** ** rpc-types

    A file version also has a [notifier] field, a reference back to the
    cache; nothing here reads it and it is left out. *)

Record FileVersion := mkFileVersion {
  filePath : NuclideUri;
  version : Z
}.

(** The range primitives of the text-buffer package, on the text of a
    buffer: the range of the whole text, the text inside a range, and the
    text with a range replaced. *)
Class RangeOps (Range : Type) := {
  rangeOf : string -> Range;
  textInRange : string -> Range -> string;
  replaceRange : string -> Range -> string -> string
}.

Section FileCache.

Context {Range : Type} `{RangeOps Range}.

(** [nuclideUri.contains(parent, child)], of commons-node/nuclideUri. *)
Variable contains : NuclideUri -> NuclideUri -> bool.

(** An event of the editor.  [FileOtherEvent] stands for a value whose
    [kind] is none of the four constants. *)
Inductive FileEvent :=
| FileOpenEvent (fileVersion : FileVersion) (contents : string)
| FileCloseEvent (fileVersion : FileVersion)
| FileEditEvent (fileVersion : FileVersion) (oldRange : Range)
    (oldText : string) (newRange : Range) (newText : string)
| FileSyncEvent (fileVersion : FileVersion) (contents : string)
| FileOtherEvent (kind : string) (fileVersion : FileVersion).

(** [LocalFileEvent]: what the cache publishes; there is no sync. *)
Inductive LocalFileEvent :=
| LocalOpen (fileVersion : FileVersion) (contents : string)
| LocalClose (fileVersion : FileVersion)
| LocalEdit (fileVersion : FileVersion) (oldRange : Range)
    (oldText : string) (newRange : Range) (newText : string).

Definition eventFileVersion (event : FileEvent) : FileVersion :=
  match event with
  | FileOpenEvent fv _ | FileCloseEvent fv | FileEditEvent fv _ _ _ _
  | FileSyncEvent fv _ | FileOtherEvent _ fv => fv
  end.

Definition localFileVersion (event : LocalFileEvent) : FileVersion :=
  match event with
  | LocalOpen fv _ | LocalClose fv | LocalEdit fv _ _ _ _ => fv
  end.

(** ** simple-text-buffer

    The constructor puts the initial text in place through a change, which
    leaves the counter at 1. *)

Record TextBuffer := mkTextBuffer {
  text : string;
  changeCount : Z
}.

Definition newTextBuffer (contents : string) : TextBuffer :=
  {| text := contents; changeCount := 1 |}.

Definition getText (buffer : TextBuffer) : string := text buffer.

Definition getRange (buffer : TextBuffer) : Range := rangeOf (text buffer).

Definition getTextInRange (buffer : TextBuffer) (range : Range) : string :=
  textInRange (text buffer) range.

Definition setTextInRange (buffer : TextBuffer) (range : Range)
    (newText : string) : TextBuffer :=
  {| text := replaceRange (text buffer) range newText;
     changeCount := changeCount buffer + 1 |}.

Definition setText (buffer : TextBuffer) (contents : string) : TextBuffer :=
  {| text := contents; changeCount := changeCount buffer + 1 |}.

(** [buffer.changeCount = n] *)
Definition setChangeCount (buffer : TextBuffer) (n : Z) : TextBuffer :=
  {| text := text buffer; changeCount := n |}.

(** ** The cache *)

Record FileCache := mkFileCache {
  _buffers : gmap NuclideUri TextBuffer;
  (* the events fed to the FileVersionNotifier by the constructor's
     subscription, oldest first *)
  _requests : list LocalFileEvent;
  (* the other observers of the subject, each with what it has received *)
  _fileEvents : list (list LocalFileEvent);
  (* the value of the BehaviorSubject: a Set, in its iteration order *)
  _directoryEvents : list NuclideUri
}.

(** [new FileCache()] *)
Definition constructor : FileCache :=
  {| _buffers := ∅; _requests := []; _fileEvents := [];
     _directoryEvents := [] |}.

Inductive Error :=
| InvariantViolation
| UnexpectedKind (kind : string).

Inductive Completion (A : Type) :=
| Returns (a : A)
| Throws (e : Error).
Global Arguments Returns {A} a.
Global Arguments Throws {A} e.

Definition Eff (A : Type) : Type := FileCache -> Completion A * FileCache.

Definition ret {A} (a : A) : Eff A := fun c => (Returns a, c).

Definition bind {A B} (m : Eff A) (k : A -> Eff B) : Eff B :=
  fun c =>
    match m c with
    | (Returns a, c') => k a c'
    | (Throws e, c') => (Throws e, c')
    end.

Definition throw {A} (e : Error) : Eff A := fun c => (Throws e, c).

Definition invariant (cond : bool) : Eff unit :=
  if cond then ret tt else throw InvariantViolation.

(** [invariant(x != null)], after which the code uses [x]. *)
Definition invariantNonNull {A} (x : option A) : Eff A :=
  match x with
  | Some a => ret a
  | None => throw InvariantViolation
  end.

Declare Scope eff_scope.
Delimit Scope eff_scope with eff.
Notation "'let*' x := m 'in' k" := (bind m (fun x => k))
  (at level 10, x name, m at level 100, k at level 200) : eff_scope.
Notation "m >> k" := (bind m (fun _ => k))
  (at level 90, right associativity) : eff_scope.
Local Open Scope eff_scope.

(** [this._buffers.get(filePath)] *)
Definition buffersGet (path : NuclideUri) : Eff (option TextBuffer) :=
  fun c => (Returns (_buffers c !! path), c).

(** [this._buffers.set(filePath, buffer)]; also how a buffer mutated in
    place shows in the map. *)
Definition buffersSet (path : NuclideUri) (buffer : TextBuffer) : Eff unit :=
  fun c =>
    (Returns tt,
     {| _buffers := <[path := buffer]> (_buffers c);
        _requests := _requests c; _fileEvents := _fileEvents c;
        _directoryEvents := _directoryEvents c |}).

(** [this._buffers.delete(filePath)] *)
Definition buffersDelete (path : NuclideUri) : Eff unit :=
  fun c =>
    (Returns tt,
     {| _buffers := delete path (_buffers c);
        _requests := _requests c; _fileEvents := _fileEvents c;
        _directoryEvents := _directoryEvents c |}).

(** [this._fileEvents.next(event)]: the notifier and every observer
    receive the event. *)
Definition fileEventsNext (event : LocalFileEvent) : Eff unit :=
  fun c =>
    (Returns tt,
     {| _buffers := _buffers c;
        _requests := _requests c ++ [event];
        _fileEvents := (fun log => log ++ [event]) <$> _fileEvents c;
        _directoryEvents := _directoryEvents c |}).

Definition createFileVersion (path : NuclideUri) (v : Z) : FileVersion :=
  {| filePath := path; version := v |}.

Definition createOpenEvent (fileVersion : FileVersion) (contents : string)
    : LocalFileEvent :=
  LocalOpen fileVersion contents.

Definition createCloseEvent (fileVersion : FileVersion) : LocalFileEvent :=
  LocalClose fileVersion.

Definition createEditEvent (fileVersion : FileVersion) (oldRange : Range)
    (oldText : string) (newRange : Range) (newText : string)
    : LocalFileEvent :=
  LocalEdit fileVersion oldRange oldText newRange newText.

Definition update (updateBufferAndMakeEventFunc : Eff LocalFileEvent)
    : Eff unit :=
  let* event := updateBufferAndMakeEventFunc in
  fileEventsNext event.

Definition _open (path : NuclideUri) (contents : string) (count : Z)
    : Eff unit :=
  let newBuffer := setChangeCount (newTextBuffer contents) count in
  update (
    buffersSet path newBuffer >>
    ret (createOpenEvent (createFileVersion path count) contents)).

(** The [buffer.destroy()] that ends [_close] acts on a buffer that the map
    no longer holds. *)
Definition _close (path : NuclideUri) (buffer : TextBuffer) : Eff unit :=
  update (
    buffersDelete path >>
    ret (createCloseEvent (createFileVersion path (changeCount buffer)))).

Definition _syncEdit (path : NuclideUri) (buffer : TextBuffer)
    (contents : string) (count : Z) : Eff unit :=
  if count <? changeCount buffer then ret tt
  else
    let oldText := getText buffer in
    let oldRange := getRange buffer in
    update (
      let buffer := setText buffer contents in
      let newRange := getRange buffer in
      let buffer := setChangeCount buffer count in
      buffersSet path buffer >>
      ret (createEditEvent (createFileVersion path count)
             oldRange oldText newRange (getText buffer))).

Definition onFileEvent (event : FileEvent) : Eff unit :=
  let path := filePath (eventFileVersion event) in
  let count := version (eventFileVersion event) in
  let* buffer := buffersGet path in
  match event with
  | FileOpenEvent _ contents =>
      invariant (bool_decide (buffer = None)) >>
      _open path contents count
  | FileCloseEvent _ =>
      match buffer with
      | Some buffer => _close path buffer
      | None => ret tt
      end
  | FileEditEvent fileVersion oldRange oldText newRange newText =>
      let* buffer := invariantNonNull buffer in
      invariant (changeCount buffer =? count - 1) >>
      invariant (String.eqb (getTextInRange buffer oldRange) oldText) >>
      update (
        let buffer := setTextInRange buffer oldRange newText in
        buffersSet path buffer >>
        invariant (changeCount buffer =? count) >>
        ret (LocalEdit fileVersion oldRange oldText newRange newText))
  | FileSyncEvent _ contents =>
      match buffer with
      | None => _open path contents count
      | Some buffer => _syncEdit path buffer contents count
      end
  | FileOtherEvent kind _ => throw (UnexpectedKind kind)
  end.

(** The caller applies the events one call after the other; a call that
    throws does not stop the later ones. *)
Fixpoint onFileEvents (events : list FileEvent) (c : FileCache)
    : list (Completion unit) * FileCache :=
  match events with
  | [] => ([], c)
  | event :: rest =>
      let '(r, c') := onFileEvent event c in
      let '(rs, c'') := onFileEvents rest c' in
      (r :: rs, c'')
  end.

(** [this._directoryEvents.next(openDirectories)] *)
Definition onDirectoriesChanged (openDirectories : list NuclideUri)
    : Eff unit :=
  fun c =>
    (Returns tt,
     {| _buffers := _buffers c; _requests := _requests c;
        _fileEvents := _fileEvents c;
        _directoryEvents := openDirectories |}).

Definition getBuffer (path : NuclideUri) (c : FileCache)
    : option TextBuffer :=
  _buffers c !! path.

(** [getBufferAtVersion] from the point where its [await] resumes:
    [waitForBufferAtVersion] is the boolean that the notifier's promise
    resolved to, and [c] is the cache at that moment. *)
Definition getBufferAtVersion (waitForBufferAtVersion : bool)
    (fileVersion : FileVersion) (c : FileCache) : option TextBuffer :=
  if negb waitForBufferAtVersion then None
  else
    match getBuffer (filePath fileVersion) c with
    | Some buffer =>
        if changeCount buffer =? version fileVersion then Some buffer
        else None
    | None => None
    end.

(** [isBufferAtVersion] is the notifier's answer to
    [this._requests.isBufferAtVersion(fileVersion)]. *)
Definition _tryGetBufferAtVersionSynchronously (isBufferAtVersion : bool)
    (fileVersion : FileVersion) (c : FileCache) : option TextBuffer :=
  if negb isBufferAtVersion then None
  else
    match getBuffer (filePath fileVersion) c with
    | Some buffer =>
        if changeCount buffer =? version fileVersion then Some buffer
        else None
    | None => None
    end.

Definition getOpenDirectories (c : FileCache) : list NuclideUri :=
  _directoryEvents c.

(** The [for ... of] loop of [getContainingDirectory]. *)
Fixpoint firstContaining (dirs : list NuclideUri) (path : NuclideUri)
    : option NuclideUri :=
  match dirs with
  | [] => None
  | dir :: rest =>
      if contains dir path then Some dir else firstContaining rest path
  end.

Definition getContainingDirectory (path : NuclideUri) (c : FileCache)
    : option NuclideUri :=
  firstContaining (getOpenDirectories c) path.

(** The array that [observeFileEvents] builds when it is called; the
    observable it returns is [Observable.from(array).concat(_fileEvents)].
    Its [invariant(buffer != null)] holds of every value of the map.  The
    program lists the entries in the order in which their paths were first
    set; a [gmap] lists them in an order of its own, and nothing below
    speaks of the order inside the array. *)
Definition observeFileEvents (c : FileCache) : list LocalFileEvent :=
  (fun entry : NuclideUri * TextBuffer =>
     let '(path, buffer) := entry in
     createOpenEvent (createFileVersion path (changeCount buffer))
       (getText buffer))
  <$> map_to_list (_buffers c).

(** Subscribing to such an observable: the observer is handed the array,
    and from then on it observes the subject.  The result is the place of
    the observer among the observers. *)
Definition subscribe (array : list LocalFileEvent) : Eff nat :=
  fun c =>
    (Returns (length (_fileEvents c)),
     {| _buffers := _buffers c; _requests := _requests c;
        _fileEvents := _fileEvents c ++ [array];
        _directoryEvents := _directoryEvents c |}).

(** What the observer at place [i] has received so far. *)
Definition received (i : nat) (c : FileCache) : list LocalFileEvent :=
  default [] (_fileEvents c !! i).

End FileCache.

Arguments FileEvent Range : clear implicits.
Arguments LocalFileEvent Range : clear implicits.
Arguments FileCache Range : clear implicits.
Arguments Eff Range A : clear implicits.
Arguments constructor Range : clear implicits.

(** ** A text buffer whose ranges are pairs of offsets

    Enough of a text buffer to run the cache on examples: a range is the
    pair of the offsets where it starts and ends. *)
Module OffsetRanges.

Definition whole (s : string) : nat * nat := (0%nat, String.length s).

Definition slice (s : string) (r : nat * nat) : string :=
  String.substring (fst r) (snd r - fst r) s.

Definition splice (s : string) (r : nat * nat) (new : string) : string :=
  String.substring 0 (fst r) s +:+ new
  +:+ String.substring (snd r) (String.length s - snd r) s.

#[export] Instance ops : RangeOps (nat * nat) :=
  {| rangeOf := whole; textInRange := slice; replaceRange := splice |}.

End OffsetRanges.


(** The last character of [path] is a slash (character 47). *)
Definition endsWithSeparator (path : NuclideUri) : bool :=
  match String.get (String.length path - 1) path with
  | Some a => Ascii.eqb a (Ascii.ascii_of_nat 47)
  | None => false
  end.

(** Modelled from the spec: [nuclideUri.contains] of
    commons-node/nuclideUri, as the spec's path-ancestor relation on paths
    separated by slashes: a directory contains itself and every path that
    continues it after a slash, the slash being the last character of the
    directory or the next character of the path. *)
Definition uriContains (parent child : NuclideUri) : bool :=
  String.prefix parent child
  && (Nat.eqb (String.length child) (String.length parent)
      || endsWithSeparator parent
      || match String.get (String.length parent) child with
         | Some a => Ascii.eqb a (Ascii.ascii_of_nat 47)
         | None => false
         end).

(** ** What a call publishes *)

Section Published.

Context {Range : Type} `{RangeOps Range}.

(** Between [c] and [c'] the notifier and every observer have received
    exactly [events], and no observer has come or gone. *)
Definition published (c c' : FileCache Range)
    (events : list (LocalFileEvent Range)) : Prop :=
  _requests c' = _requests c ++ events
  /\ _fileEvents c' = (fun log => log ++ events) <$> _fileEvents c.

(** The version that a published event carries is the counter of the
    buffer it is about: of the buffer in the map after the call for an open
    or an edit, of the buffer that the call deleted for a close. *)
Definition carriesCounter (c c' : FileCache Range)
    (event : LocalFileEvent Range) : Prop :=
  match event with
  | LocalOpen fv _ | LocalEdit fv _ _ _ _ =>
      exists buffer,
        _buffers c' !! filePath fv = Some buffer
        /\ changeCount buffer = version fv
  | LocalClose fv =>
      exists buffer,
        _buffers c !! filePath fv = Some buffer
        /\ changeCount buffer = version fv
        /\ _buffers c' !! filePath fv = None
  end.

(** An edit passes the checks of [onFileEvent]: there is a buffer, the
    version is one more than its counter, and the old text is there. *)
Definition editPasses (event : FileEvent Range) (c : FileCache Range)
    : bool :=
  match event with
  | FileEditEvent fv oldRange oldText _ _ =>
      match _buffers c !! filePath fv with
      | Some buffer =>
          (version fv =? changeCount buffer + 1)
          && String.eqb (getTextInRange buffer oldRange) oldText
      | None => false
      end
  | _ => false
  end.

(** Each of [events] is an edit of [path] that passes the checks in the
    cache it is applied to. *)
Fixpoint editsPass (path : NuclideUri) (events : list (FileEvent Range))
    (c : FileCache Range) : bool :=
  match events with
  | [] => true
  | event :: rest =>
      String.eqb (filePath (eventFileVersion event)) path
      && editPasses event c
      && editsPass path rest (snd (onFileEvent event c))
  end.

(** The range replacements of a sequence of edits, applied to a text in
    order. *)
Definition replaceRanges (contents : string)
    (events : list (FileEvent Range)) : string :=
  fold_left
    (fun t event =>
       match event with
       | FileEditEvent _ oldRange _ _ newText =>
           replaceRange t oldRange newText
       | _ => t
       end)
    events contents.

(** What a call of [onFileEvent] can do to the cache: nothing; put one
    buffer under the path of the event and publish an open or an edit that
    carries its counter; or delete the buffer of that path and publish a
    close that carries its counter. *)
Inductive effect (event : FileEvent Range) (c c' : FileCache Range)
    : Prop :=
| effect_none : c' = c -> effect event c c'
| effect_put buffer ev :
    _buffers c' = <[filePath (eventFileVersion event) := buffer]> (_buffers c) ->
    _directoryEvents c' = _directoryEvents c ->
    published c c' [ev] ->
    localFileVersion ev
    = mkFileVersion (filePath (eventFileVersion event)) (changeCount buffer) ->
    (forall fv, ev <> LocalClose fv) ->
    effect event c c'
| effect_delete buffer :
    _buffers c !! filePath (eventFileVersion event) = Some buffer ->
    _buffers c' = delete (filePath (eventFileVersion event)) (_buffers c) ->
    _directoryEvents c' = _directoryEvents c ->
    published c c'
      [LocalClose (mkFileVersion (filePath (eventFileVersion event))
                     (changeCount buffer))] ->
    effect event c c'.

End Published.

(** ** Concrete caches

    ["/a"] is opened with ["foo"] at version 1 and then edited to ["bar"] at
    version 2, the example of the specification. *)
Module Scenario.

Import OffsetRanges.

Definition openA : FileEvent (nat * nat) :=
  FileOpenEvent (mkFileVersion "/a" 1) "foo".

Definition editA : FileEvent (nat * nat) :=
  FileEditEvent (mkFileVersion "/a" 2) (0, 3)%nat "foo" (0, 3)%nat "bar".

Definition opened : FileCache (nat * nat) :=
  snd (onFileEvent openA (constructor (nat * nat))).

Definition edited : FileCache (nat * nat) :=
  snd (onFileEvent editA opened).

(** The observable is taken from [opened], but subscribed to only in
    [edited], after the edit. *)
Definition lateSubscriber : FileCache (nat * nat) :=
  snd (subscribe (observeFileEvents opened) edited).

Definition directories : FileCache (nat * nat) :=
  snd (onDirectoriesChanged ["/a"; "/a/b"] (constructor (nat * nat))).

(** ["/b"] is opened before ["/a"]. *)
Definition twoFiles : FileCache (nat * nat) :=
  snd (onFileEvents
         [FileOpenEvent (mkFileVersion "/b" 4) "second";
          FileOpenEvent (mkFileVersion "/a" 1) "foo"]
         (constructor (nat * nat))).

End Scenario.

(** ** Teardown, and mirrors of the cache *)

Section Teardown.

Context {Range : Type} `{RangeOps Range}.

(** [this._buffers.size] *)
Definition buffersSize : Eff Range nat :=
  fun c => (Returns (size (_buffers c)), c).

(** The loop of [dispose] over [this._buffers.entries()].  Each turn
    deletes the entry it is at, which leaves the entries still to come in
    place, so the loop visits the entries that the map had when it
    started. *)
Fixpoint closeEntries (entries : list (NuclideUri * TextBuffer))
    : Eff Range unit :=
  match entries with
  | [] => ret tt
  | (path, buffer) :: rest =>
      bind (_close path buffer) (fun _ => closeEntries rest)
  end.

(** [dispose], up to and with its [invariant].  [entries] is what
    [this._buffers.entries()] yields: the entries of the map in the order in
    which their paths were first set, an order that a [gmap] does not keep
    and that is therefore given.  The three calls that end [dispose]
    dispose of the notifier and complete the two subjects, whose lifetimes
    the state does not record. *)
Definition dispose (entries : list (NuclideUri * TextBuffer))
    : Eff Range unit :=
  bind (closeEntries entries)
    (fun _ => bind buffersSize (fun n => invariant (n =? 0)%nat)).

(** What a listener that keeps its own copy of the buffers does with a
    published event: an open stores the contents at the version, a close
    drops the path, an edit replaces the old range by the new text and takes
    the version. *)
Definition applyLocal (mirror : gmap NuclideUri TextBuffer)
    (event : LocalFileEvent Range) : gmap NuclideUri TextBuffer :=
  match event with
  | LocalOpen fv contents =>
      <[filePath fv := mkTextBuffer contents (version fv)]> mirror
  | LocalClose fv => delete (filePath fv) mirror
  | LocalEdit fv oldRange _ _ newText =>
      match mirror !! filePath fv with
      | Some buffer =>
          <[filePath fv :=
              mkTextBuffer (replaceRange (text buffer) oldRange newText)
                (version fv)]> mirror
      | None => mirror
      end
  end.

(** The copy that such a listener holds after a sequence of events, having
    started with nothing. *)
Definition mirrorOf (events : list (LocalFileEvent Range))
    : gmap NuclideUri TextBuffer :=
  fold_left applyLocal events ∅.

(** [event] is a sync. *)
Definition isSync (event : FileEvent Range) : bool :=
  match event with
  | FileSyncEvent _ _ => true
  | _ => false
  end.

(** The close events of the entries of a map, in the order of the
    entries. *)
Definition closeEvents (entries : list (NuclideUri * TextBuffer))
    : list (LocalFileEvent Range) :=
  (fun entry : NuclideUri * TextBuffer =>
     LocalClose (mkFileVersion (fst entry) (changeCount (snd entry))))
  <$> entries.

(** [event] is a close of [path]. *)
Definition isCloseOf (path : NuclideUri) (event : FileEvent Range) : bool :=
  match event with
  | FileCloseEvent fv => String.eqb (filePath fv) path
  | _ => false
  end.

(** When [onFileEvent] throws, by the shape of the event and the cache:
    an open of a path that has a buffer, an edit that does not pass the
    checks, an event of no known kind. *)
Definition rejected (event : FileEvent Range) (c : FileCache Range)
    : option Error :=
  match event with
  | FileOpenEvent fv _ =>
      match _buffers c !! filePath fv with
      | Some _ => Some InvariantViolation
      | None => None
      end
  | FileEditEvent _ _ _ _ _ =>
      if editPasses event c then None else Some InvariantViolation
  | FileOtherEvent kind _ => Some (UnexpectedKind kind)
  | FileCloseEvent _ | FileSyncEvent _ _ => None
  end.

End Teardown.

(** ** The arithmetic of JavaScript numbers

    Counters and versions are JavaScript numbers, that is doubles.  A
    double holds every integer up to 2^53 in absolute value; beyond, it
    holds every second integer, then every fourth, and so on, and the
    result of an operation is rounded to the nearest of them, to the one
    with the even significand when two are as near.  [Doubles.onFileEvent]
    is [onFileEvent] with [changeCount - 1] and [changeCount++] rounded in
    that way; the comparisons of numbers are exact.  Numbers from 2^1024
    on, which a double takes to infinity, are not considered. *)
Module Doubles.

(** The integer that a double holds when the exact result is [z]. *)
Definition roundToDouble (z : Z) : Z :=
  let a := Z.abs z in
  if a <=? 9007199254740992 then z
  else
    let ulp := 2 ^ (Z.log2 a - 52) in
    let q := a / ulp in
    let r := a mod ulp in
    let q' :=
      if 2 * r <? ulp then q
      else if ulp <? 2 * r then q + 1
      else if Z.even q then q else q + 1 in
    Z.sgn z * (q' * ulp).

(** [Number.isSafeInteger], on an integer: below 2^53 in absolute value. *)
Definition isSafeInteger (z : Z) : bool := Z.abs z <? 9007199254740992.

Section Cache.

Context {Range : Type} `{RangeOps Range}.

(** The only event on whose version [onFileEvent] computes is an edit:
    [event] is no edit, or its version is a safe integer. *)
Definition editIsSafe (event : FileEvent Range) : bool :=
  match event with
  | FileEditEvent fv _ _ _ _ => isSafeInteger (version fv)
  | _ => true
  end.

Definition setTextInRange (buffer : TextBuffer) (range : Range)
    (newText : string) : TextBuffer :=
  {| text := replaceRange (text buffer) range newText;
     changeCount := roundToDouble (changeCount buffer + 1) |}.

Definition setText (buffer : TextBuffer) (contents : string) : TextBuffer :=
  {| text := contents; changeCount := roundToDouble (changeCount buffer + 1) |}.

Definition _syncEdit (path : NuclideUri) (buffer : TextBuffer)
    (contents : string) (count : Z) : Eff Range unit :=
  if count <? changeCount buffer then ret tt
  else
    let oldText := getText buffer in
    let oldRange := getRange buffer in
    update (
      let buffer := setText buffer contents in
      let newRange := getRange buffer in
      let buffer := setChangeCount buffer count in
      bind (buffersSet path buffer) (fun _ =>
      ret (createEditEvent (createFileVersion path count)
             oldRange oldText newRange (getText buffer)))).

Definition onFileEvent (event : FileEvent Range) : Eff Range unit :=
  let path := filePath (eventFileVersion event) in
  let count := version (eventFileVersion event) in
  bind (buffersGet path) (fun buffer =>
  match event with
  | FileOpenEvent _ contents =>
      bind (invariant (bool_decide (buffer = None))) (fun _ =>
      _open path contents count)
  | FileCloseEvent _ =>
      match buffer with
      | Some buffer => _close path buffer
      | None => ret tt
      end
  | FileEditEvent fileVersion oldRange oldText newRange newText =>
      bind (invariantNonNull buffer) (fun buffer =>
      bind (invariant (changeCount buffer =? roundToDouble (count - 1)))
        (fun _ =>
      bind (invariant (String.eqb (getTextInRange buffer oldRange) oldText))
        (fun _ =>
      update (
        let buffer := setTextInRange buffer oldRange newText in
        bind (buffersSet path buffer) (fun _ =>
        bind (invariant (changeCount buffer =? count)) (fun _ =>
        ret (LocalEdit fileVersion oldRange oldText newRange newText)))))))
  | FileSyncEvent _ contents =>
      match buffer with
      | None => _open path contents count
      | Some buffer => _syncEdit path buffer contents count
      end
  | FileOtherEvent kind _ => throw (UnexpectedKind kind)
  end).

Fixpoint onFileEvents (events : list (FileEvent Range)) (c : FileCache Range)
    : list (Completion unit) * FileCache Range :=
  match events with
  | [] => ([], c)
  | event :: rest =>
      let '(r, c') := onFileEvent event c in
      let '(rs, c'') := onFileEvents rest c' in
      (r :: rs, c'')
  end.

End Cache.

End Doubles.

(** ** A cache at the end of the safe integers

    ["/a"] is opened with ["foo"] at version 2^53; the edit to ["bar"]
    carries 2^53 + 2, which is not the counter plus one. *)
Module AtTheLimit.

Import OffsetRanges.

Definition opened : FileCache (nat * nat) :=
  snd (Doubles.onFileEvent
         (FileOpenEvent (mkFileVersion "/a" 9007199254740992) "foo")
         (constructor (nat * nat))).


(** ["/a"] at version 2^53 + 4, and an edit that carries that very
    version and inserts ["x"] at the start. *)
Definition openedFurther : FileCache (nat * nat) :=
  snd (Doubles.onFileEvent
         (FileOpenEvent (mkFileVersion "/a" 9007199254740996) "foo")
         (constructor (nat * nat))).

Definition editAtCounter : FileEvent (nat * nat) :=
  FileEditEvent (mkFileVersion "/a" 9007199254740996)
    (0, 0)%nat "" (0, 1)%nat "x".

End AtTheLimit.

(** ** Properties of [onFileEvent] *)

Section Properties.

Context {Range : Type} `{RangeOps Range}.

Implicit Types (c : FileCache Range) (fv : FileVersion)
  (buffer : TextBuffer) (event : FileEvent Range).

Ltac run :=
  unfold onFileEvent, _open, _close, _syncEdit, update, bind, buffersGet,
    buffersSet, buffersDelete, fileEventsNext, invariant, invariantNonNull,
    ret, throw, createOpenEvent, createCloseEvent, createEditEvent,
    createFileVersion; cbn.

Lemma published_nil c : published c c [].
Proof.
  split; [by rewrite app_nil_r |].
  rewrite <- (list_fmap_id (_fileEvents c)) at 1.
  apply list_fmap_ext. intros _ log _. by rewrite app_nil_r.
Qed.

Lemma published_app c1 c2 c3 (es1 es2 : list (LocalFileEvent Range)) :
  published c1 c2 es1 -> published c2 c3 es2 -> published c1 c3 (es1 ++ es2).
Proof.
  intros [Hr1 Hf1] [Hr2 Hf2]. split.
  - by rewrite Hr2, Hr1, app_assoc.
  - rewrite Hf2, Hf1, <- list_fmap_compose. apply list_fmap_ext.
    intros _ log _. cbn. by rewrite app_assoc.
Qed.

Lemma onFileEvent_open_fresh c fv contents :
  _buffers c !! filePath fv = None ->
  onFileEvent (FileOpenEvent fv contents) c
  = (Returns tt,
     {| _buffers :=
          <[filePath fv := mkTextBuffer contents (version fv)]> (_buffers c);
        _requests := _requests c ++ [LocalOpen fv contents];
        _fileEvents :=
          (fun log => log ++ [LocalOpen fv contents]) <$> _fileEvents c;
        _directoryEvents := _directoryEvents c |}).
Proof. intros Hnone. run. rewrite Hnone. by destruct fv. Qed.

Lemma onFileEvent_open_taken c fv contents buffer :
  _buffers c !! filePath fv = Some buffer ->
  onFileEvent (FileOpenEvent fv contents) c = (Throws InvariantViolation, c).
Proof. intros Hsome. run. by rewrite Hsome. Qed.

Lemma onFileEvent_edit_passes c fv oldRange oldText newRange newText buffer :
  _buffers c !! filePath fv = Some buffer ->
  version fv = changeCount buffer + 1 ->
  getTextInRange buffer oldRange = oldText ->
  onFileEvent (FileEditEvent fv oldRange oldText newRange newText) c
  = (Returns tt,
     {| _buffers :=
          <[filePath fv := setTextInRange buffer oldRange newText]>
            (_buffers c);
        _requests :=
          _requests c ++ [LocalEdit fv oldRange oldText newRange newText];
        _fileEvents :=
          (fun log =>
             log ++ [LocalEdit fv oldRange oldText newRange newText])
          <$> _fileEvents c;
        _directoryEvents := _directoryEvents c |}).
Proof.
  intros Hsome Hv Ht. run. rewrite Hsome. cbn.
  replace (changeCount buffer =? version fv - 1) with true
    by (symmetry; apply Z.eqb_eq; lia).
  cbn. rewrite Ht, String.eqb_refl. cbn.
  replace (changeCount buffer + 1 =? version fv) with true
    by (symmetry; apply Z.eqb_eq; lia).
  reflexivity.
Qed.

Lemma onFileEvent_edit_fails c fv oldRange oldText newRange newText :
  editPasses (FileEditEvent fv oldRange oldText newRange newText) c = false ->
  onFileEvent (FileEditEvent fv oldRange oldText newRange newText) c
  = (Throws InvariantViolation, c).
Proof.
  unfold editPasses. run. destruct (_buffers c !! filePath fv) as [b|];
    cbn; [| done].
  intros Hf. destruct (Z.eqb_spec (changeCount b) (version fv - 1)) as [E|E];
    cbn; [| done].
  replace (version fv =? changeCount b + 1) with true in Hf
    by (symmetry; apply Z.eqb_eq; lia).
  cbn in Hf. by rewrite Hf.
Qed.

Lemma onFileEvent_sync_ahead c fv contents buffer :
  _buffers c !! filePath fv = Some buffer ->
  changeCount buffer <= version fv ->
  onFileEvent (FileSyncEvent fv contents) c
  = (Returns tt,
     {| _buffers :=
          <[filePath fv := mkTextBuffer contents (version fv)]> (_buffers c);
        _requests :=
          _requests c
          ++ [LocalEdit fv (getRange buffer) (getText buffer)
                (rangeOf contents) contents];
        _fileEvents :=
          (fun log =>
             log ++ [LocalEdit fv (getRange buffer) (getText buffer)
                       (rangeOf contents) contents])
          <$> _fileEvents c;
        _directoryEvents := _directoryEvents c |}).
Proof.
  intros Hsome Hle. run. rewrite Hsome. run.
  destruct (Z.ltb_spec (version fv) (changeCount buffer)); [lia |].
  by destruct fv.
Qed.

Lemma onFileEvent_sync_stale c fv contents buffer :
  _buffers c !! filePath fv = Some buffer ->
  version fv < changeCount buffer ->
  onFileEvent (FileSyncEvent fv contents) c = (Returns tt, c).
Proof.
  intros Hsome Hlt. run. rewrite Hsome. run.
  by destruct (Z.ltb_spec (version fv) (changeCount buffer)); [| lia].
Qed.

Lemma onFileEvent_close_open c fv buffer :
  _buffers c !! filePath fv = Some buffer ->
  onFileEvent (FileCloseEvent fv) c
  = (Returns tt,
     {| _buffers := delete (filePath fv) (_buffers c);
        _requests :=
          _requests c
          ++ [LocalClose (mkFileVersion (filePath fv) (changeCount buffer))];
        _fileEvents :=
          (fun log =>
             log
             ++ [LocalClose
                   (mkFileVersion (filePath fv) (changeCount buffer))])
          <$> _fileEvents c;
        _directoryEvents := _directoryEvents c |}).
Proof. intros Hsome. run. by rewrite Hsome. Qed.

Lemma onFileEvent_close_absent c fv :
  _buffers c !! filePath fv = None ->
  onFileEvent (FileCloseEvent fv) c = (Returns tt, c).
Proof. intros Hnone. run. by rewrite Hnone. Qed.

Lemma editPasses_true event c :
  editPasses event c = true ->
  exists fv oldRange oldText newRange newText buffer,
    event = FileEditEvent fv oldRange oldText newRange newText
    /\ _buffers c !! filePath fv = Some buffer
    /\ version fv = changeCount buffer + 1
    /\ getTextInRange buffer oldRange = oldText.
Proof.
  destruct event as [| |fv r1 t1 r2 t2| |]; cbn; try done.
  destruct (_buffers c !! filePath fv) as [b|] eqn:Hb; [| done].
  intros [Hv Ht]%andb_true_iff. exists fv, r1, t1, r2, t2, b.
  split; [done |]. split; [done |].
  split; [by apply Z.eqb_eq | by apply String.eqb_eq].
Qed.

Lemma onFileEvent_effect event c : effect event c (snd (onFileEvent event c)).
Proof.
  destruct event as [fv contents|fv|fv r1 t1 r2 t2|fv contents|kind fv].
  - destruct (_buffers c !! filePath fv) as [b|] eqn:Hb.
    + rewrite (onFileEvent_open_taken _ _ _ _ Hb). by apply effect_none.
    + rewrite (onFileEvent_open_fresh _ _ _ Hb).
      eapply effect_put; cbn; try done. by destruct fv.
  - destruct (_buffers c !! filePath fv) as [b|] eqn:Hb.
    + rewrite (onFileEvent_close_open _ _ _ Hb).
      by eapply effect_delete.
    + rewrite (onFileEvent_close_absent _ _ Hb). by apply effect_none.
  - destruct (editPasses (FileEditEvent fv r1 t1 r2 t2) c) eqn:He.
    + apply editPasses_true in He
        as (fv' & r1' & t1' & r2' & t2' & b & [= <- <- <- <- <-] & Hb & Hv & Ht).
      rewrite (onFileEvent_edit_passes _ _ _ _ _ _ _ Hb Hv Ht).
      eapply effect_put; cbn; try done.
      destruct fv; cbn in *. by rewrite Hv.
    + rewrite (onFileEvent_edit_fails _ _ _ _ _ _ He). by apply effect_none.
  - destruct (_buffers c !! filePath fv) as [b|] eqn:Hb.
    + destruct (Z.lt_ge_cases (version fv) (changeCount b)) as [Hlt|Hge].
      * rewrite (onFileEvent_sync_stale _ _ _ _ Hb Hlt). by apply effect_none.
      * rewrite (onFileEvent_sync_ahead _ _ _ _ Hb Hge).
        eapply effect_put; cbn; try done. by destruct fv.
    + replace (onFileEvent (FileSyncEvent fv contents) c)
        with (onFileEvent (FileOpenEvent fv contents) c)
        by (run; by rewrite Hb).
      rewrite (onFileEvent_open_fresh _ _ _ Hb).
      eapply effect_put; cbn; try done. by destruct fv.
  - by apply effect_none.
Qed.

Lemma onFileEvents_cons event events c :
  onFileEvents (event :: events) c
  = (fst (onFileEvent event c)
       :: fst (onFileEvents events (snd (onFileEvent event c))),
     snd (onFileEvents events (snd (onFileEvent event c)))).
Proof.
  change (onFileEvents (event :: events) c)
    with (let '(r, c') := onFileEvent event c in
          let '(rs, c'') := onFileEvents events c' in (r :: rs, c'')).
  destruct (onFileEvent event c) as [r c1]. cbn.
  by destruct (onFileEvents events c1).
Qed.

Lemma onFileEvents_published events c :
  exists live, published c (snd (onFileEvents events c)) live.
Proof.
  revert c. induction events as [|event events IH]; intros c.
  - exists []. apply published_nil.
  - rewrite onFileEvents_cons. cbn [snd].
    destruct (IH (snd (onFileEvent event c))) as [live Hlive].
    pose proof (onFileEvent_effect event c) as He.
    revert Hlive He.
    generalize (snd (onFileEvents events (snd (onFileEvent event c)))).
    generalize (snd (onFileEvent event c)).
    intros c1 c2 Hlive [Heq|? ev _ _ Hp _ _|? _ _ _ Hp].
    + subst c1. by exists live.
    + exists ([ev] ++ live). by eapply published_app.
    + eexists (_ ++ live). by eapply published_app.
Qed.

Lemma elem_of_observeFileEvents c (ev : LocalFileEvent Range) :
  ev ∈ observeFileEvents c
  <-> exists path buffer,
        _buffers c !! path = Some buffer
        /\ ev = LocalOpen (mkFileVersion path (changeCount buffer))
                  (getText buffer).
Proof.
  unfold observeFileEvents. rewrite list_elem_of_fmap. split.
  - intros [[p b] [-> Hin]]. exists p, b. split; [| done].
    by apply elem_of_map_to_list.
  - intros (p & b & Hb & ->). exists (p, b). split; [done |].
    by apply elem_of_map_to_list.
Qed.

Lemma observeFileEvents_paths c :
  (fun ev : LocalFileEvent Range => filePath (localFileVersion ev))
  <$> observeFileEvents c
  = (map_to_list (_buffers c)).*1.
Proof.
  unfold observeFileEvents. rewrite <- list_fmap_compose.
  apply list_fmap_ext. by intros _ [p b] _.
Qed.

Lemma firstContaining_Some contains dirs path dir :
  firstContaining contains dirs path = Some dir
  <-> exists before after,
        dirs = before ++ dir :: after
        /\ contains dir path = true
        /\ forall d, d ∈ before -> contains d path = false.
Proof.
  induction dirs as [|d dirs IH]; cbn.
  - split; [done |]. intros ([|??] & ? & ? & _); done.
  - destruct (contains d path) eqn:Hd.
    + split.
      * intros [= ->]. exists [], dirs. repeat split; [done |].
        intros ? ?%elem_of_nil. done.
      * intros ([|d' before] & after & Heq & Hc & Hb).
        -- by injection Heq as -> _.
        -- injection Heq as -> _. rewrite Hb in Hd; [done |].
           apply list_elem_of_here.
    + rewrite IH. split.
      * intros (before & after & -> & Hc & Hb).
        exists (d :: before), after. repeat split; [done |].
        intros d' [->|?]%elem_of_cons; auto.
      * intros ([|d' before] & after & Heq & Hc & Hb).
        -- injection Heq as -> _. congruence.
        -- injection Heq as -> ->. exists before, after.
           repeat split; [done |]. intros x Hin. apply Hb.
           by apply list_elem_of_further.
Qed.

Lemma firstContaining_None contains dirs path :
  firstContaining contains dirs path = None
  <-> forall d, d ∈ dirs -> contains d path = false.
Proof.
  induction dirs as [|d dirs IH]; cbn.
  - split; [| done]. intros _ ? ?%elem_of_nil. done.
  - destruct (contains d path) eqn:Hd.
    + split; [done |]. intros Hall.
      rewrite Hall in Hd; [done | apply list_elem_of_here].
    + rewrite IH. split.
      * intros Hall d' [->|?]%elem_of_cons; auto.
      * intros Hall d' Hin. apply Hall. by apply list_elem_of_further.
Qed.

Lemma edits_run path events : forall c buffer,
  _buffers c !! path = Some buffer ->
  editsPass path events c = true ->
  Forall (eq (Returns tt)) (fst (onFileEvents events c))
  /\ _buffers (snd (onFileEvents events c)) !! path
     = Some {| text := replaceRanges (text buffer) events;
               changeCount := changeCount buffer + Z.of_nat (length events) |}.
Proof.
  induction events as [|event events IH]; intros c buffer Hb Hpass.
  - cbn. split; [constructor |]. rewrite Hb, Z.add_0_r. by destruct buffer.
  - cbn [editsPass] in Hpass.
    apply andb_true_iff in Hpass as [[Hpath Hone]%andb_true_iff Hrest].
    apply String.eqb_eq in Hpath.
    apply editPasses_true in Hone
      as (fv & r1 & t1 & r2 & t2 & b & -> & Hb' & Hv & Ht).
    cbn in Hpath. subst path. rewrite Hb in Hb'. injection Hb' as <-.
    rewrite onFileEvents_cons.
    rewrite (onFileEvent_edit_passes _ _ _ _ r2 t2 _ Hb Hv Ht) in *.
    cbn [fst snd] in *.
    edestruct IH as [Hall Hfin]; [| exact Hrest |].
    { cbn. apply lookup_insert_eq. }
    split; [by constructor |].
    rewrite Hfin. cbn. do 2 f_equal. lia.
Qed.

(** C1.  Applying an Open event with contents [contents] and version [v0]
    and then N Edit events of the same path, each of which passes the checks
    in the cache it is applied to (its version is the buffer's counter plus
    one and its old text is the text at its old range): every call returns,
    the buffer's change counter is [v0 + N], and its text is the result of
    applying the N range replacements to [contents] in order. *)
Theorem open_then_edits c path contents v0 (edits : list (FileEvent Range)) :
  fst (onFileEvent (FileOpenEvent (mkFileVersion path v0) contents) c)
  = Returns tt ->
  editsPass path edits
    (snd (onFileEvent (FileOpenEvent (mkFileVersion path v0) contents) c))
  = true ->
  Forall (eq (Returns tt))
    (fst (onFileEvents
            (FileOpenEvent (mkFileVersion path v0) contents :: edits) c))
  /\ _buffers
       (snd (onFileEvents
               (FileOpenEvent (mkFileVersion path v0) contents :: edits) c))
     !! path
     = Some {| text := replaceRanges contents edits;
               changeCount := v0 + Z.of_nat (length edits) |}.
Proof.
  intros Hopen Hpass. rewrite onFileEvents_cons. cbn [fst snd].
  destruct (_buffers c !! path) as [b|] eqn:Hb.
  { rewrite (onFileEvent_open_taken c (mkFileVersion path v0) contents b Hb)
      in Hopen. done. }
  rewrite (onFileEvent_open_fresh c (mkFileVersion path v0) contents Hb) in *.
  cbn [fst snd filePath version] in *.
  edestruct (edits_run path edits) as [Hall Hfin]; [| exact Hpass |].
  { cbn. apply lookup_insert_eq. }
  split; [by constructor |]. exact Hfin.
Qed.


(** C4.  A Sync event whose version is strictly less than the counter of
    the path's buffer returns and changes nothing: the cache after the call
    is the cache before it, so the buffer keeps its text and counter and
    nothing has been published. *)
Theorem sync_before_counter c fv contents buffer :
  _buffers c !! filePath fv = Some buffer ->
  version fv < changeCount buffer ->
  exists c',
    onFileEvent (FileSyncEvent fv contents) c = (Returns tt, c')
    /\ _buffers c' !! filePath fv = Some buffer
    /\ published c c' []
    /\ c' = c.
Proof.
  intros Hb Hlt. exists c.
  split; [exact (onFileEvent_sync_stale c fv contents buffer Hb Hlt) |].
  split; [done | split; [apply published_nil | done]].
Qed.

(** C5.  An Open event for a path that has a buffer throws the invariant
    error (the spec's DesyncError) and leaves the cache, hence that buffer,
    as it was.  For a path without a buffer it returns; afterwards the path
    has a buffer whose text is the given contents and whose counter is the
    given version, and exactly one event has been published: the Open of
    that path and version with those contents. *)
Theorem open_event c fv contents :
  (forall buffer,
     _buffers c !! filePath fv = Some buffer ->
     onFileEvent (FileOpenEvent fv contents) c
     = (Throws InvariantViolation, c))
  /\ (_buffers c !! filePath fv = None ->
      exists c' buffer',
        onFileEvent (FileOpenEvent fv contents) c = (Returns tt, c')
        /\ _buffers c' !! filePath fv = Some buffer'
        /\ getText buffer' = contents
        /\ changeCount buffer' = version fv
        /\ published c c' [LocalOpen fv contents]).
Proof.
  split.
  - intros buffer Hb. by eapply onFileEvent_open_taken.
  - intros Hnone. eexists _, (mkTextBuffer contents (version fv)).
    split; [exact (onFileEvent_open_fresh c fv contents Hnone) |].
    cbn. split; [apply lookup_insert_eq |]. done.
Qed.

(** C6.  Whatever the notifier answered, [getBufferAtVersion] (once its
    wait has resolved) and [_tryGetBufferAtVersionSynchronously] return a
    buffer exactly when the notifier answered true, the cache holds that
    buffer for the path, and the buffer's counter equals the requested
    version; so they return nothing when the path has no buffer (it was
    closed) and when its counter differs from the requested version (for
    instance because it has moved past it). *)
Theorem buffer_at_version_exact (ready : bool) fv c :
  (forall buffer,
     getBufferAtVersion ready fv c = Some buffer
     <-> ready = true
         /\ _buffers c !! filePath fv = Some buffer
         /\ changeCount buffer = version fv)
  /\ (forall buffer,
        _tryGetBufferAtVersionSynchronously ready fv c = Some buffer
        <-> ready = true
            /\ _buffers c !! filePath fv = Some buffer
            /\ changeCount buffer = version fv)
  /\ (_buffers c !! filePath fv = None
      \/ (exists buffer,
            _buffers c !! filePath fv = Some buffer
            /\ changeCount buffer <> version fv) ->
      getBufferAtVersion ready fv c = None
      /\ _tryGetBufferAtVersionSynchronously ready fv c = None).
Proof.
  assert (Hboth : forall buffer,
    (if negb ready then None
     else match _buffers c !! filePath fv with
          | Some b => if changeCount b =? version fv then Some b else None
          | None => None
          end) = Some buffer
    <-> ready = true
        /\ _buffers c !! filePath fv = Some buffer
        /\ changeCount buffer = version fv).
  { intros buffer. destruct ready; cbn; [| by intuition].
    destruct (_buffers c !! filePath fv) as [b|]; [| by intuition].
    destruct (Z.eqb_spec (changeCount b) (version fv)) as [E|E]; split.
    - by intros [= <-].
    - by intros (_ & [= <-] & _).
    - done.
    - intros (_ & [= <-] & E'). done. }
  assert (Hnone : forall o : option TextBuffer,
    (forall buffer, o <> Some buffer) -> o = None).
  { intros [b|] Hno; [by destruct (Hno b) | done]. }
  unfold getBufferAtVersion, _tryGetBufferAtVersionSynchronously, getBuffer.
  split; [exact Hboth | split; [exact Hboth |]].
  intros Hmismatch.
  assert (Hno : forall buffer,
    ~ (ready = true /\ _buffers c !! filePath fv = Some buffer
       /\ changeCount buffer = version fv)).
  { intros buffer (_ & Hb & Hv).
    destruct Hmismatch as [Hn|(b & Hb' & Hv')]; [congruence |].
    rewrite Hb in Hb'. injection Hb' as <-. done. }
  split; apply Hnone; intros buffer Hsome; apply (Hno buffer);
    by apply Hboth.
Qed.

(** C7, as amended.  When an observer subscribes to the stream of
    [observeFileEvents] in the cache in which [observeFileEvents] was called,
    the events it has received after any further calls of [onFileEvent] are
    the replay followed by the events published since the subscription,
    each once and in order.  The replay consists of exactly one Open event
    per buffer of that cache, with the buffer's path, counter and text. *)
Theorem replay_then_live c (events : list (FileEvent Range)) i c1 c2 :
  subscribe (observeFileEvents c) c = (Returns i, c1) ->
  snd (onFileEvents events c1) = c2 ->
  (forall ev,
     ev ∈ observeFileEvents c
     <-> exists path buffer,
           _buffers c !! path = Some buffer
           /\ ev = LocalOpen (mkFileVersion path (changeCount buffer))
                     (getText buffer))
  /\ NoDup ((fun ev : LocalFileEvent Range => filePath (localFileVersion ev))
            <$> observeFileEvents c)
  /\ exists live,
       published c1 c2 live
       /\ received i c2 = observeFileEvents c ++ live.
Proof.
  intros Hsub <-. split; [apply elem_of_observeFileEvents |].
  split; [rewrite observeFileEvents_paths; apply NoDup_fst_map_to_list |].
  destruct (onFileEvents_published events c1) as [live Hlive].
  exists live. split; [done |].
  destruct Hlive as [_ Hlogs]. unfold subscribe in Hsub.
  injection Hsub as <- <-. unfold received. rewrite Hlogs. cbn.
  rewrite list_lookup_fmap, lookup_app_r, Nat.sub_diag by done.
  reflexivity.
Qed.

(** C8.  Every event that a call of [onFileEvent] publishes carries the
    counter of the buffer it is about: an Open or an Edit (the editor's own
    or the one made from a Sync) carries the counter of the buffer that the
    map holds for its path after the call, and a Close carries the counter
    of the buffer that the map held for its path before the call and no
    longer holds after it. *)
Theorem published_version_is_counter event c :
  exists events,
    published c (snd (onFileEvent event c)) events
    /\ Forall (carriesCounter c (snd (onFileEvent event c))) events.
Proof.
  destruct (onFileEvent_effect event c)
    as [Heq|buffer ev Hput _ Hp Hfv Hkind|buffer Hb Hdel _ Hp].
  - exists []. rewrite Heq. split; [apply published_nil | constructor].
  - exists [ev]. split; [done |]. constructor; [| constructor].
    assert (Hlook : _buffers (snd (onFileEvent event c))
                    !! filePath (eventFileVersion event) = Some buffer)
      by (rewrite Hput; apply lookup_insert_eq).
    destruct ev as [fv ?|fv|fv ? ? ? ?];
      cbn [carriesCounter localFileVersion] in *.
    + subst fv. by exists buffer.
    + by destruct (Hkind fv).
    + subst fv. by exists buffer.
  - eexists. split; [exact Hp |]. constructor; [| constructor].
    cbn [carriesCounter filePath version].
    exists buffer. split; [done |]. split; [done |].
    rewrite Hdel. apply lookup_delete_eq.
Qed.

(** C9.  A call of [onFileEvent], whether it returns or throws, leaves the
    map's entry for every path other than the event's path as it was: the
    same buffer with the same text and counter, or none. *)
Theorem other_paths_untouched event c (path : NuclideUri) :
  path <> filePath (eventFileVersion event) ->
  _buffers (snd (onFileEvent event c)) !! path = _buffers c !! path.
Proof.
  intros Hne.
  destruct (onFileEvent_effect event c) as [Heq|? ? Hput _ _ _ _|? _ Hdel _ _].
  - by rewrite Heq.
  - rewrite Hput. by apply lookup_insert_ne.
  - rewrite Hdel. by apply lookup_delete_ne.
Qed.

(** C10.  [getContainingDirectory] returns a directory exactly when that
    directory is the first one, in the iteration order of the set of open
    directories, that contains the path, and it returns nothing exactly when
    no open directory contains the path.  The first need not be the most
    deeply nested: with ["/a"] before ["/a/b"] in the set, the directory
    returned for ["/a/b/f"] is ["/a"], although ["/a/b"] is open, contains
    the path and lies inside ["/a"]. *)
Theorem containing_directory_is_first
    (contains : NuclideUri -> NuclideUri -> bool) (path : NuclideUri) c :
  (forall dir,
     getContainingDirectory contains path c = Some dir
     <-> exists before after,
           getOpenDirectories c = before ++ dir :: after
           /\ contains dir path = true
           /\ forall d, d ∈ before -> contains d path = false)
  /\ (getContainingDirectory contains path c = None
      <-> forall d, d ∈ getOpenDirectories c -> contains d path = false)
  /\ (exists (c' : FileCache Range) (nested : NuclideUri),
        getContainingDirectory uriContains "/a/b/f" c' = Some "/a"
        /\ nested ∈ getOpenDirectories c'
        /\ uriContains nested "/a/b/f" = true
        /\ uriContains "/a" nested = true
        /\ nested <> "/a").
Proof.
  split; [intros dir; apply firstContaining_Some |].
  split; [apply firstContaining_None |].
  exists (snd (onDirectoriesChanged ["/a"; "/a/b"] (constructor Range))),
    "/a/b".
  cbn. split; [reflexivity |].
  split; [apply list_elem_of_further, list_elem_of_here |].
  repeat split; done.
Qed.

End Properties.

(** ** The example of the specification, and the theorems at it *)

Section AtTheExample.

Import OffsetRanges Scenario.

Example spec_example_buffer :
  getBuffer "/a" edited = Some {| text := "bar"; changeCount := 2 |}.
Proof. vm_compute. reflexivity. Qed.

Example spec_example_at_version :
  getBufferAtVersion true (mkFileVersion "/a" 2) edited
  = Some {| text := "bar"; changeCount := 2 |}
  /\ _tryGetBufferAtVersionSynchronously true (mkFileVersion "/a" 3) edited
     = None.
Proof. vm_compute. split; reflexivity. Qed.

Example spec_example_published :
  _requests edited
  = [LocalOpen (mkFileVersion "/a" 1) "foo";
     LocalEdit (mkFileVersion "/a" 2) (0, 3)%nat "foo" (0, 3)%nat "bar"].
Proof. vm_compute. reflexivity. Qed.

Lemma open_then_edits_witness :
  Forall (eq (Returns tt))
    (fst (onFileEvents [openA; editA] (constructor (nat * nat))))
  /\ _buffers (snd (onFileEvents [openA; editA] (constructor (nat * nat))))
     !! "/a"
     = Some {| text := replaceRanges "foo" [editA];
               changeCount := 1 + Z.of_nat (length [editA]) |}.
Proof.
  apply (open_then_edits (constructor (nat * nat)) "/a" "foo" 1 [editA]);
    vm_compute; reflexivity.
Defined.

Lemma sync_before_counter_witness :
  exists c',
    onFileEvent (FileSyncEvent (mkFileVersion "/a" 1) "old") edited
    = (Returns tt, c')
    /\ _buffers c' !! "/a" = Some {| text := "bar"; changeCount := 2 |}
    /\ published edited c' []
    /\ c' = edited.
Proof.
  apply (sync_before_counter edited (mkFileVersion "/a" 1) "old"
           {| text := "bar"; changeCount := 2 |}).
  - vm_compute. reflexivity.
  - simpl. lia.
Defined.

Lemma replay_then_live_witness :
  (forall ev,
     ev ∈ observeFileEvents opened
     <-> exists path buffer,
           _buffers opened !! path = Some buffer
           /\ ev = LocalOpen (mkFileVersion path (changeCount buffer))
                     (getText buffer))
  /\ NoDup ((fun ev : LocalFileEvent (nat * nat) =>
               filePath (localFileVersion ev))
            <$> observeFileEvents opened)
  /\ exists live,
       published (snd (subscribe (observeFileEvents opened) opened))
         (snd (onFileEvents [editA]
                 (snd (subscribe (observeFileEvents opened) opened))))
         live
       /\ received 0
            (snd (onFileEvents [editA]
                    (snd (subscribe (observeFileEvents opened) opened))))
          = observeFileEvents opened ++ live.
Proof.
  apply (replay_then_live opened [editA] 0%nat
           (snd (subscribe (observeFileEvents opened) opened))).
  - reflexivity.
  - reflexivity.
Defined.

Lemma other_paths_untouched_witness :
  _buffers (snd (onFileEvent editA opened)) !! "/b" = _buffers opened !! "/b".
Proof.
  apply (other_paths_untouched editA opened "/b").
  simpl. discriminate.
Defined.

(** C7 as stated fails when the subscription comes after the call of
    [observeFileEvents]: the observable was taken when ["/a"] held
    ["foo"] at version 1; the buffer was then edited to ["bar"] at version
    2; the observer that subscribes now is handed the Open of ["foo"] at
    version 1, not one with the buffer's present text and counter. *)
Lemma late_subscriber_receives_stale_open :
  _buffers lateSubscriber !! "/a"
  = Some {| text := "bar"; changeCount := 2 |}
  /\ received 0 lateSubscriber = [LocalOpen (mkFileVersion "/a" 1) "foo"]
  /\ ~ (forall path buffer,
          _buffers lateSubscriber !! path = Some buffer ->
          LocalOpen (mkFileVersion path (changeCount buffer)) (getText buffer)
          ∈ received 0 lateSubscriber).
Proof.
  assert (Hb : _buffers lateSubscriber !! "/a"
               = Some {| text := "bar"; changeCount := 2 |})
    by (vm_compute; reflexivity).
  assert (Hr : received 0 lateSubscriber
               = [LocalOpen (mkFileVersion "/a" 1) "foo"])
    by (vm_compute; reflexivity).
  split; [exact Hb | split; [exact Hr |]].
  intros Hall. specialize (Hall _ _ Hb). rewrite Hr in Hall.
  apply list_elem_of_singleton in Hall. discriminate Hall.
Qed.

End AtTheExample.

(** ** Further properties of [onFileEvent] *)

Section MoreProperties.

Context {Range : Type} `{RangeOps Range}.

Implicit Types (c : FileCache Range) (fv : FileVersion)
  (buffer : TextBuffer) (event : FileEvent Range).

Lemma onFileEvent_other c kind fv :
  onFileEvent (FileOtherEvent kind fv) c = (Throws (UnexpectedKind kind), c).
Proof. reflexivity. Qed.

Lemma onFileEvent_sync_absent c fv contents :
  _buffers c !! filePath fv = None ->
  onFileEvent (FileSyncEvent fv contents) c
  = onFileEvent (FileOpenEvent fv contents) c.
Proof.
  intros Hnone. unfold onFileEvent, bind, buffersGet. cbn. by rewrite Hnone.
Qed.

Lemma onFileEvent_rejected event c e :
  rejected event c = Some e -> onFileEvent event c = (Throws e, c).
Proof.
  destruct event as [fv contents|fv|fv r1 t1 r2 t2|fv contents|kind fv];
    cbn [rejected]; try done.
  - destruct (_buffers c !! filePath fv) as [b|] eqn:Hb; [| done].
    intros [= <-]. by eapply onFileEvent_open_taken.
  - destruct (editPasses (FileEditEvent fv r1 t1 r2 t2) c) eqn:He; [done |].
    intros [= <-]. by apply onFileEvent_edit_fails.
  - intros [= <-]. apply onFileEvent_other.
Qed.

Lemma onFileEvent_not_rejected event c :
  rejected event c = None -> fst (onFileEvent event c) = Returns tt.
Proof.
  destruct event as [fv contents|fv|fv r1 t1 r2 t2|fv contents|kind fv];
    cbn [rejected]; try done.
  - destruct (_buffers c !! filePath fv) as [b|] eqn:Hb; [done |].
    intros _. by rewrite (onFileEvent_open_fresh _ _ _ Hb).
  - intros _. destruct (_buffers c !! filePath fv) as [b|] eqn:Hb.
    + by rewrite (onFileEvent_close_open _ _ _ Hb).
    + by rewrite (onFileEvent_close_absent _ _ Hb).
  - destruct (editPasses (FileEditEvent fv r1 t1 r2 t2) c) eqn:He; [| done].
    intros _. apply editPasses_true in He
      as (fv' & r1' & t1' & r2' & t2' & b & [= <- <- <- <- <-] & Hb & Hv & Ht).
    by rewrite (onFileEvent_edit_passes _ _ _ _ _ _ _ Hb Hv Ht).
  - intros _. destruct (_buffers c !! filePath fv) as [b|] eqn:Hb.
    + destruct (Z.lt_ge_cases (version fv) (changeCount b)) as [Hlt|Hge].
      * by rewrite (onFileEvent_sync_stale _ _ _ _ Hb Hlt).
      * by rewrite (onFileEvent_sync_ahead _ _ _ _ Hb Hge).
    + rewrite (onFileEvent_sync_absent _ _ _ Hb).
      by rewrite (onFileEvent_open_fresh _ _ _ Hb).
Qed.

(** X1.  A Close event for a path that has a buffer returns; afterwards the
    path has no buffer and exactly one event has been published, the Close
    of that path with the counter that the buffer had, whatever version the
    incoming event carried.  A Close event for a path without a buffer
    returns and changes nothing. *)
Theorem close_event c fv :
  (forall buffer,
     _buffers c !! filePath fv = Some buffer ->
     exists c',
       onFileEvent (FileCloseEvent fv) c = (Returns tt, c')
       /\ _buffers c' !! filePath fv = None
       /\ published c c'
            [LocalClose (mkFileVersion (filePath fv) (changeCount buffer))])
  /\ (_buffers c !! filePath fv = None ->
      onFileEvent (FileCloseEvent fv) c = (Returns tt, c)).
Proof.
  split.
  - intros buffer Hb. eexists.
    split; [exact (onFileEvent_close_open c fv buffer Hb) |].
    cbn. split; [apply lookup_delete_eq | done].
  - apply onFileEvent_close_absent.
Qed.


Lemma frame_of_effect event c c' (path : NuclideUri) :
  effect event c c' ->
  path <> filePath (eventFileVersion event) ->
  _buffers c' !! path = _buffers c !! path.
Proof.
  intros [Heq|? ? Hput _ _ _ _|? _ Hdel _ _] Hne.
  - by rewrite Heq.
  - rewrite Hput. by apply lookup_insert_ne.
  - rewrite Hdel. by apply lookup_delete_ne.
Qed.

Lemma counter_step event c (path : NuclideUri) buffer :
  _buffers c !! path = Some buffer ->
  isCloseOf path event = false ->
  exists buffer',
    _buffers (snd (onFileEvent event c)) !! path = Some buffer'
    /\ changeCount buffer <= changeCount buffer'.
Proof.
  intros Hb Hclose.
  destruct (decide (path = filePath (eventFileVersion event))) as [->|Hne].
  2: { exists buffer. split; [| lia].
       rewrite (frame_of_effect event c _ path (onFileEvent_effect event c) Hne).
       done. }
  destruct event as [fv contents|fv|fv r1 t1 r2 t2|fv contents|kind fv];
    cbn [eventFileVersion] in *.
  - rewrite (onFileEvent_open_taken _ _ _ _ Hb). exists buffer. split; [done | lia].
  - cbn in Hclose. by rewrite String.eqb_refl in Hclose.
  - destruct (editPasses (FileEditEvent fv r1 t1 r2 t2) c) eqn:He.
    + apply editPasses_true in He
        as (fv' & r1' & t1' & r2' & t2' & b & [= <- <- <- <- <-] & Hb' & Hv & Ht).
      rewrite (onFileEvent_edit_passes _ _ _ _ _ _ _ Hb' Hv Ht).
      rewrite Hb in Hb'. injection Hb' as <-.
      eexists. cbn. split; [apply lookup_insert_eq |]. cbn. lia.
    + rewrite (onFileEvent_edit_fails _ _ _ _ _ _ He).
      exists buffer. split; [done | lia].
  - destruct (Z.lt_ge_cases (version fv) (changeCount buffer)) as [Hlt|Hge].
    + rewrite (onFileEvent_sync_stale _ _ _ _ Hb Hlt).
      exists buffer. split; [done | lia].
    + rewrite (onFileEvent_sync_ahead _ _ _ _ Hb Hge).
      eexists. cbn. split; [apply lookup_insert_eq |]. cbn. lia.
  - rewrite onFileEvent_other. exists buffer. split; [done | lia].
Qed.

(** X6.  Only a Close of its path removes a buffer, and a counter never
    goes down: when a path has a buffer and none of the events applied next
    is a Close of that path, the path still has a buffer afterwards, and its
    counter is at least what it was. *)
Theorem counter_never_decreases (events : list (FileEvent Range)) c
    (path : NuclideUri) buffer :
  _buffers c !! path = Some buffer ->
  forallb (fun event => negb (isCloseOf path event)) events = true ->
  exists buffer',
    _buffers (snd (onFileEvents events c)) !! path = Some buffer'
    /\ changeCount buffer <= changeCount buffer'.
Proof.
  revert c buffer. induction events as [|event events IH];
    intros c buffer Hb Hno.
  - exists buffer. split; [done | lia].
  - cbn [forallb] in Hno. apply andb_true_iff in Hno as [Hev Hrest].
    apply negb_true_iff in Hev.
    destruct (counter_step event c path buffer Hb Hev) as (b1 & Hb1 & Hle1).
    destruct (IH _ b1 Hb1 Hrest) as (b2 & Hb2 & Hle2).
    rewrite onFileEvents_cons. cbn [snd].
    exists b2. split; [done | lia].
Qed.

(* With exact arithmetic the same Open or the same Edit is refused the
   second time. *)
Lemma onFileEvent_twice c fv :
  (forall contents,
     fst (onFileEvent (FileOpenEvent fv contents)
            (snd (onFileEvent (FileOpenEvent fv contents) c)))
     = Throws InvariantViolation)
  /\ (forall oldRange oldText newRange newText,
        fst (onFileEvent
               (FileEditEvent fv oldRange oldText newRange newText)
               (snd (onFileEvent
                       (FileEditEvent fv oldRange oldText newRange newText)
                       c)))
        = Throws InvariantViolation).
Proof.
  split.
  - intros contents. destruct (_buffers c !! filePath fv) as [b|] eqn:Hb.
    + rewrite (onFileEvent_open_taken _ _ _ _ Hb). cbn [snd].
      by rewrite (onFileEvent_open_taken _ _ _ _ Hb).
    + rewrite (onFileEvent_open_fresh _ _ _ Hb). cbn [snd].
      erewrite onFileEvent_open_taken; [done |].
      cbn. apply lookup_insert_eq.
  - intros r1 t1 r2 t2.
    destruct (editPasses (FileEditEvent fv r1 t1 r2 t2) c) eqn:He.
    + apply editPasses_true in He
        as (fv' & r1' & t1' & r2' & t2' & b & [= <- <- <- <- <-] & Hb & Hv & Ht).
      rewrite (onFileEvent_edit_passes _ _ _ _ _ _ _ Hb Hv Ht). cbn [snd].
      rewrite onFileEvent_edit_fails; [done |].
      cbn. rewrite lookup_insert_eq. cbn.
      apply andb_false_iff. left. apply Z.eqb_neq. lia.
    + rewrite (onFileEvent_edit_fails _ _ _ _ _ _ He). cbn [snd].
      by rewrite (onFileEvent_edit_fails _ _ _ _ _ _ He).
Qed.

(** X8.  A Close or a Sync that arrives twice does no harm: a second Close
    returns and changes nothing, and after a second Sync with the same
    contents and version the buffers are what they were after the first. *)
Theorem close_and_sync_idempotent c fv :
  onFileEvent (FileCloseEvent fv) (snd (onFileEvent (FileCloseEvent fv) c))
  = (Returns tt, snd (onFileEvent (FileCloseEvent fv) c))
  /\ (forall contents,
        _buffers
          (snd (onFileEvent (FileSyncEvent fv contents)
                  (snd (onFileEvent (FileSyncEvent fv contents) c))))
        = _buffers (snd (onFileEvent (FileSyncEvent fv contents) c))).
Proof.
  split.
  - apply onFileEvent_close_absent.
    destruct (_buffers c !! filePath fv) as [b|] eqn:Hb.
    + rewrite (onFileEvent_close_open _ _ _ Hb). cbn. apply lookup_delete_eq.
    + by rewrite (onFileEvent_close_absent _ _ Hb).
  - intros contents.
    assert (Hagain : forall c1 : FileCache Range,
      _buffers c1 !! filePath fv
      = Some (mkTextBuffer contents (version fv)) ->
      _buffers (snd (onFileEvent (FileSyncEvent fv contents) c1))
      = _buffers c1).
    { intros c1 Hb1.
      rewrite (onFileEvent_sync_ahead _ _ _ _ Hb1) by (cbn; lia).
      cbn. by apply insert_id. }
    destruct (_buffers c !! filePath fv) as [b|] eqn:Hb.
    + destruct (Z.lt_ge_cases (version fv) (changeCount b)) as [Hlt|Hge].
      * rewrite (onFileEvent_sync_stale _ _ _ _ Hb Hlt). cbn [snd].
        by rewrite (onFileEvent_sync_stale _ _ _ _ Hb Hlt).
      * apply Hagain. rewrite (onFileEvent_sync_ahead _ _ _ _ Hb Hge).
        cbn. apply lookup_insert_eq.
    + apply Hagain. rewrite (onFileEvent_sync_absent _ _ _ Hb).
      rewrite (onFileEvent_open_fresh _ _ _ Hb). cbn. apply lookup_insert_eq.
Qed.

(** X9.  No file event changes the set of open directories, so the answer
    of [getContainingDirectory] for any path is the same before and after
    a call of [onFileEvent], whether the call returns or throws. *)
Theorem file_events_keep_directories
    (contains : NuclideUri -> NuclideUri -> bool) event c
    (path : NuclideUri) :
  getOpenDirectories (snd (onFileEvent event c)) = getOpenDirectories c
  /\ getContainingDirectory contains path (snd (onFileEvent event c))
     = getContainingDirectory contains path c.
Proof.
  assert (Hdirs : _directoryEvents (snd (onFileEvent event c))
                  = _directoryEvents c).
  { destruct (onFileEvent_effect event c) as [Heq|? ? _ Hd _ _ _|? _ _ Hd _];
      [by rewrite Heq | done | done]. }
  unfold getContainingDirectory, getOpenDirectories. by rewrite Hdirs.
Qed.

Lemma mirror_step event c :
  isSync event = false ->
  exists events,
    published c (snd (onFileEvent event c)) events
    /\ fold_left applyLocal events (_buffers c)
       = _buffers (snd (onFileEvent event c)).
Proof.
  intros Hplain.
  destruct event as [fv contents|fv|fv r1 t1 r2 t2|fv contents|kind fv].
  - destruct (_buffers c !! filePath fv) as [b|] eqn:Hb.
    + rewrite (onFileEvent_open_taken _ _ _ _ Hb).
      exists []. split; [apply published_nil | done].
    + rewrite (onFileEvent_open_fresh _ _ _ Hb).
      exists [LocalOpen fv contents]. by split.
  - destruct (_buffers c !! filePath fv) as [b|] eqn:Hb.
    + rewrite (onFileEvent_close_open _ _ _ Hb). eexists. by split.
    + rewrite (onFileEvent_close_absent _ _ Hb).
      exists []. split; [apply published_nil | done].
  - destruct (editPasses (FileEditEvent fv r1 t1 r2 t2) c) eqn:He.
    + apply editPasses_true in He
        as (fv' & r1' & t1' & r2' & t2' & b & [= <- <- <- <- <-] & Hb & Hv & Ht).
      rewrite (onFileEvent_edit_passes _ _ _ _ _ _ _ Hb Hv Ht).
      exists [LocalEdit fv r1 t1 r2 t2]. split; [done |].
      cbn. rewrite Hb. unfold setTextInRange. by rewrite Hv.
    + rewrite (onFileEvent_edit_fails _ _ _ _ _ _ He).
      exists []. split; [apply published_nil | done].
  - done.
  - rewrite onFileEvent_other. exists []. split; [apply published_nil | done].
Qed.

Lemma mirror_steps (events : list (FileEvent Range)) c :
  forallb (fun event => negb (isSync event)) events = true ->
  exists live,
    published c (snd (onFileEvents events c)) live
    /\ fold_left applyLocal live (_buffers c)
       = _buffers (snd (onFileEvents events c)).
Proof.
  revert c. induction events as [|event events IH]; intros c Hplain.
  - exists []. split; [apply published_nil | done].
  - cbn [forallb] in Hplain. apply andb_true_iff in Hplain as [Hev Hrest].
    apply negb_true_iff in Hev.
    rewrite onFileEvents_cons. cbn [snd].
    destruct (mirror_step event c Hev) as (evs & Hp1 & Hm1).
    destruct (IH (snd (onFileEvent event c)) Hrest) as (live & Hp2 & Hm2).
    exists (evs ++ live). split; [by eapply published_app |].
    by rewrite fold_left_app, Hm1.
Qed.

Lemma fold_opens (entries : list (NuclideUri * TextBuffer)) :
  forall mirror : gmap NuclideUri TextBuffer,
  NoDup entries.*1 ->
  fold_left applyLocal
    ((fun entry : NuclideUri * TextBuffer =>
        let '(path, buffer) := entry in
        createOpenEvent (createFileVersion path (changeCount buffer))
          (getText buffer)) <$> entries)
    mirror
  = list_to_map entries ∪ mirror.
Proof.
  induction entries as [|[p b] entries IH]; intros mirror Hnd.
  - cbn. by rewrite (left_id_L ∅ (∪)).
  - apply NoDup_cons in Hnd as [Hnotin Hnd]. cbn.
    rewrite (IH _ Hnd). destruct b as [t n]. cbn.
    rewrite <- insert_union_l. symmetry. apply insert_union_r.
    by apply not_elem_of_list_to_map_1.
Qed.

Lemma fold_deletes (entries : list (NuclideUri * TextBuffer)) :
  forall (m : gmap NuclideUri TextBuffer) (path : NuclideUri),
  fold_left (fun m entry => delete (fst entry) m) entries m !! path
  = if decide (path ∈ entries.*1) then None else m !! path.
Proof.
  induction entries as [|[p b] entries IH]; intros m path; cbn.
  - destruct (decide (path ∈ [])) as [Hin|_]; [| done].
    by apply elem_of_nil in Hin.
  - rewrite IH. destruct (decide (path ∈ entries.*1)) as [Hin|Hnotin].
    + rewrite decide_True; [done |]. by apply list_elem_of_further.
    + destruct (decide (path = p)) as [->|Hne].
      * rewrite decide_True by apply list_elem_of_here.
        apply lookup_delete_eq.
      * rewrite decide_False.
        -- by apply lookup_delete_ne.
        -- intros [?|?]%elem_of_cons; done.
Qed.

Lemma closeEntries_run (entries : list (NuclideUri * TextBuffer)) :
  forall c,
  exists c',
    closeEntries entries c = (Returns tt, c')
    /\ _buffers c'
       = fold_left (fun m entry => delete (fst entry) m) entries (_buffers c)
    /\ published c c' (closeEvents entries)
    /\ _directoryEvents c' = _directoryEvents c.
Proof.
  induction entries as [|[p b] entries IH]; intros c.
  - exists c. cbn. split; [done |]. split; [done |].
    split; [apply published_nil | done].
  - cbn [closeEntries]. unfold bind at 1.
    set (c1 := {| _buffers := delete p (_buffers c);
                  _requests :=
                    _requests c
                    ++ [LocalClose (mkFileVersion p (changeCount b))];
                  _fileEvents :=
                    (fun log =>
                       log ++ [LocalClose (mkFileVersion p (changeCount b))])
                    <$> _fileEvents c;
                  _directoryEvents := _directoryEvents c |}).
    change (_close p b c) with (Returns tt, c1). cbn beta iota.
    destruct (IH c1) as (c' & Hrun & Hbuf & Hpub & Hdir).
    exists c'. split; [done |]. split; [done |]. split; [| done].
    change (closeEvents ((p, b) :: entries))
      with ([LocalClose (Range := Range)
               (mkFileVersion p (changeCount b))]
            ++ closeEvents entries).
    eapply published_app; [| exact Hpub]. by split.
Qed.

(** X11.  The replay of [observeFileEvents] is a full snapshot: a listener
    that starts with nothing and applies the replayed Open events holds
    exactly the cache's buffers, with their texts and counters. *)
Theorem replay_rebuilds_buffers c :
  mirrorOf (observeFileEvents c) = _buffers c.
Proof.
  unfold mirrorOf, observeFileEvents.
  rewrite fold_opens by apply NoDup_fst_map_to_list.
  by rewrite (right_id_L ∅ (∪)), list_to_map_to_list.
Qed.

(** X13.  [dispose] closes every buffer and its invariant never fails:
    whatever the order in which the map yields its entries, [dispose] runs
    to its end without throwing, no buffer is left, exactly one Close event
    per buffer that was open has been published, each with its path and
    the counter the buffer had, in the order in which the entries were
    yielded, and the open directories are untouched. *)
Theorem dispose_closes_everything c
    (entries : list (NuclideUri * TextBuffer)) :
  entries ≡ₚ map_to_list (_buffers c) ->
  exists c',
    dispose entries c = (Returns tt, c')
    /\ _buffers c' = ∅
    /\ published c c' (closeEvents entries)
    /\ _directoryEvents c' = _directoryEvents c.
Proof.
  intros Hperm.
  destruct (closeEntries_run entries c) as (c' & Hrun & Hbuf & Hpub & Hdir).
  assert (Hempty : _buffers c' = ∅).
  { apply map_eq. intros path. rewrite Hbuf, fold_deletes, lookup_empty.
    destruct (decide (path ∈ entries.*1)) as [_|Hnotin]; [done |].
    destruct (_buffers c !! path) as [b|] eqn:Hb; [| done].
    destruct Hnotin. apply list_elem_of_fmap. exists (path, b).
    split; [done |]. rewrite Hperm. by apply elem_of_map_to_list. }
  exists c'. split; [| done].
  unfold dispose, bind. rewrite Hrun. unfold buffersSize.
  by rewrite Hempty, map_size_empty.
Qed.

(** X14.  The stream of [observeFileEvents] carries the replay as it was
    when [observeFileEvents] was called, whenever it is subscribed to: an
    observer that subscribes in any later cache receives that replay, then
    exactly the events published after its subscription, each once and in
    order.  What was published between the call and the subscription never
    reaches it. *)
Theorem subscription_at_any_time (events : list (FileEvent Range))
    (c0 c : FileCache Range) i c1 :
  subscribe (observeFileEvents c0) c = (Returns i, c1) ->
  exists live,
    published c1 (snd (onFileEvents events c1)) live
    /\ received i (snd (onFileEvents events c1))
       = observeFileEvents c0 ++ live.
Proof.
  intros Hsub.
  destruct (onFileEvents_published events c1) as [live Hlive].
  exists live. split; [done |].
  revert Hlive. generalize (snd (onFileEvents events c1)).
  intros c2 [_ Hlogs].
  unfold subscribe in Hsub. injection Hsub as <- <-.
  unfold received. rewrite Hlogs. cbn.
  by rewrite list_lookup_fmap, lookup_app_r, Nat.sub_diag.
Qed.

(** X15.  A Sync always leaves its path with a buffer that is at least as
    new as the Sync: after the call the path has a buffer whose counter is
    greater than or equal to the synced version, and when the counter
    equals the synced version the buffer's text is the synced contents. *)
Theorem sync_leaves_buffer c fv contents :
  exists buffer,
    _buffers (snd (onFileEvent (FileSyncEvent fv contents) c)) !! filePath fv
    = Some buffer
    /\ version fv <= changeCount buffer
    /\ (changeCount buffer = version fv -> getText buffer = contents).
Proof.
  destruct (_buffers c !! filePath fv) as [b|] eqn:Hb.
  - destruct (Z.lt_ge_cases (version fv) (changeCount b)) as [Hlt|Hge].
    + rewrite (onFileEvent_sync_stale _ _ _ _ Hb Hlt). exists b.
      split; [done |]. split; lia.
    + rewrite (onFileEvent_sync_ahead _ _ _ _ Hb Hge).
      exists (mkTextBuffer contents (version fv)). cbn.
      split; [apply lookup_insert_eq |]. split; [lia | done].
  - rewrite (onFileEvent_sync_absent _ _ _ Hb).
    rewrite (onFileEvent_open_fresh _ _ _ Hb).
    exists (mkTextBuffer contents (version fv)). cbn.
    split; [apply lookup_insert_eq |]. split; [lia | done].
Qed.

End MoreProperties.

(** ** The further properties at the example *)

Section MoreAtTheExample.

Import OffsetRanges Scenario.


Lemma counter_never_decreases_witness :
  exists buffer',
    _buffers
      (snd (onFileEvents
              [editA; FileSyncEvent (mkFileVersion "/a" 7) "baz";
               FileCloseEvent (mkFileVersion "/b" 1)]
              opened))
    !! "/a" = Some buffer'
    /\ 1 <= changeCount buffer'.
Proof.
  apply (counter_never_decreases
           [editA; FileSyncEvent (mkFileVersion "/a" 7) "baz";
            FileCloseEvent (mkFileVersion "/b" 1)]
           opened "/a" {| text := "foo"; changeCount := 1 |}).
  - vm_compute. reflexivity.
  - vm_compute. reflexivity.
Defined.

Lemma subscription_at_any_time_witness :
  exists live,
    published lateSubscriber
      (snd (onFileEvents [FileSyncEvent (mkFileVersion "/a" 7) "baz"]
              lateSubscriber))
      live
    /\ received 0
         (snd (onFileEvents [FileSyncEvent (mkFileVersion "/a" 7) "baz"]
                 lateSubscriber))
       = observeFileEvents opened ++ live.
Proof.
  apply (subscription_at_any_time
           [FileSyncEvent (mkFileVersion "/a" 7) "baz"] opened edited 0%nat
           lateSubscriber).
  reflexivity.
Defined.

End MoreAtTheExample.

(** ** The cache on JavaScript numbers *)

Section DoublesProperties.

Context {Range : Type} `{RangeOps Range}.

Implicit Types (c : FileCache Range) (fv : FileVersion)
  (buffer : TextBuffer) (event : FileEvent Range).

Lemma roundToDouble_exact (z : Z) :
  Z.abs z <= 9007199254740992 -> Doubles.roundToDouble z = z.
Proof.
  intros Hz. unfold Doubles.roundToDouble.
  by destruct (Z.leb_spec (Z.abs z) 9007199254740992); [| lia].
Qed.

Lemma isSafeInteger_bound (z : Z) :
  Doubles.isSafeInteger z = true -> Z.abs z < 9007199254740992.
Proof. unfold Doubles.isSafeInteger. apply Z.ltb_lt. Qed.

(** Unless the event is an edit whose version is beyond the safe integers,
    the rounding never shows: the cache on doubles does what the cache on
    integers does. *)
Lemma doubles_agree event c :
  Doubles.editIsSafe event = true ->
  Doubles.onFileEvent event c = onFileEvent event c.
Proof.
  intros Hsafe.
  destruct event as [fv contents|fv|fv r1 t1 r2 t2|fv contents|kind fv];
    try reflexivity.
  cbn [Doubles.editIsSafe] in Hsafe. apply isSafeInteger_bound in Hsafe.
  unfold Doubles.onFileEvent, onFileEvent, bind, buffersGet.
  cbn [eventFileVersion].
  destruct (_buffers c !! filePath fv) as [b|]; cbn; [| done].
  rewrite roundToDouble_exact by lia.
  destruct (Z.eqb_spec (changeCount b) (version fv - 1)) as [E|E];
    cbn; [| done].
  destruct (getTextInRange b r1 =? t1)%string; cbn; [| done].
  unfold update, bind, buffersSet, Doubles.setTextInRange, setTextInRange.
  cbn. by rewrite roundToDouble_exact by lia.
Qed.

Lemma doubles_onFileEvents_cons event (events : list (FileEvent Range)) c :
  Doubles.onFileEvents (event :: events) c
  = (fst (Doubles.onFileEvent event c)
       :: fst (Doubles.onFileEvents events (snd (Doubles.onFileEvent event c))),
     snd (Doubles.onFileEvents events (snd (Doubles.onFileEvent event c)))).
Proof.
  change (Doubles.onFileEvents (event :: events) c)
    with (let '(r, c') := Doubles.onFileEvent event c in
          let '(rs, c'') := Doubles.onFileEvents events c' in (r :: rs, c'')).
  destruct (Doubles.onFileEvent event c) as [r c1]. cbn.
  by destruct (Doubles.onFileEvents events c1).
Qed.

Lemma doubles_agree_events (events : list (FileEvent Range)) :
  forall c,
  forallb Doubles.editIsSafe events = true ->
  Doubles.onFileEvents events c = onFileEvents events c.
Proof.
  induction events as [|event events IH]; intros c Hsafe; [done |].
  cbn [forallb] in Hsafe. apply andb_true_iff in Hsafe as [Hev Hrest].
  rewrite doubles_onFileEvents_cons, onFileEvents_cons.
  by rewrite (doubles_agree _ _ Hev), (IH _ Hrest).
Qed.

Lemma forallb_and {A} (f g : A -> bool) (l : list A) :
  forallb (fun x => f x && g x) l = true ->
  forallb f l = true /\ forallb g l = true.
Proof.
  induction l as [|x l IH]; cbn; [done |].
  intros [[Hf Hg]%andb_true_iff [Hfl Hgl]%IH]%andb_true_iff.
  by rewrite Hf, Hg, Hfl, Hgl.
Qed.


(** X3.  Unless the event is an Edit whose version is beyond the safe
    integers, the call throws in exactly three situations, each with its
    own error: an Open of a path that has a buffer and an Edit that does not
    pass the checks (no buffer, wrong version or wrong old text) fail the
    invariant; an event of unknown kind is reported with its kind.  Every
    other call returns; in particular a Close and a Sync never throw,
    whatever their versions. *)
Theorem throws_exactly_when event c :
  Doubles.editIsSafe event = true ->
  fst (Doubles.onFileEvent event c)
  = match rejected event c with
    | Some e => Throws e
    | None => Returns tt
    end.
Proof.
  intros Hsafe. rewrite doubles_agree by done.
  destruct (rejected event c) as [e|] eqn:Hr.
  - by rewrite (onFileEvent_rejected _ _ _ Hr).
  - by apply onFileEvent_not_rejected.
Qed.

(** X4.  A call that throws has changed nothing, unless the event is an
    Edit whose version is beyond the safe integers: the buffers, what the
    notifier and the observers have received, and the open directories are
    as before the call. *)
Theorem throw_changes_nothing event c e c' :
  Doubles.editIsSafe event = true ->
  Doubles.onFileEvent event c = (Throws e, c') ->
  c' = c.
Proof.
  intros Hsafe Hthrow. rewrite doubles_agree in Hthrow by done.
  destruct (rejected event c) as [e'|] eqn:Hr.
  - rewrite (onFileEvent_rejected _ _ _ Hr) in Hthrow. congruence.
  - apply onFileEvent_not_rejected in Hr. rewrite Hthrow in Hr. done.
Qed.

(** X5.  Unless the event is an Edit whose version is beyond the safe
    integers, a call publishes at most one event, and when it publishes
    none the whole cache is as before: the buffers do not change without an
    event being published by the same call. *)
Theorem at_most_one_event event c :
  Doubles.editIsSafe event = true ->
  exists events,
    published c (snd (Doubles.onFileEvent event c)) events
    /\ (length events <= 1)%nat
    /\ (events = [] -> snd (Doubles.onFileEvent event c) = c).
Proof.
  intros Hsafe. rewrite doubles_agree by done.
  destruct (onFileEvent_effect event c) as [Heq|? ev _ _ Hp _ _|? _ _ _ Hp].
  - exists []. rewrite Heq.
    split; [apply published_nil | split; [cbn; lia | done]].
  - exists [ev]. split; [done |]. split; [cbn; lia | intros [=]].
  - eexists. split; [exact Hp |]. split; [cbn; lia | intros [=]].
Qed.

(** X7.  The same Open, and the same Edit when its version is a safe
    integer, cannot be applied twice in a row: whatever the first call did,
    the second one throws the invariant error. *)
Theorem duplicate_is_rejected c fv :
  (forall contents,
     fst (Doubles.onFileEvent (FileOpenEvent fv contents)
            (snd (Doubles.onFileEvent (FileOpenEvent fv contents) c)))
     = Throws InvariantViolation)
  /\ (Doubles.isSafeInteger (version fv) = true ->
      forall oldRange oldText newRange newText,
        fst (Doubles.onFileEvent
               (FileEditEvent fv oldRange oldText newRange newText)
               (snd (Doubles.onFileEvent
                       (FileEditEvent fv oldRange oldText newRange newText)
                       c)))
        = Throws InvariantViolation).
Proof.
  destruct (onFileEvent_twice c fv) as [Hopen Hedit]. split.
  - intros contents. rewrite !doubles_agree by done. apply Hopen.
  - intros Hsafe r1 t1 r2 t2. rewrite !doubles_agree by done. apply Hedit.
Qed.

(** X10.  For a session of opens, edits and closes the events fed to the
    notifier tell the whole story of the buffers.  When a copy of the
    buffers kept from those events alone (an open stores, an edit replaces
    its old range and takes the version, a close drops) equals the cache's
    buffers, as it does in a new cache, it still does after any sequence of
    calls, those that throw included, for events that are no Sync and,
    when they are edits, have safe integers as versions. *)
Theorem feed_mirrors_buffers (events : list (FileEvent Range)) c :
  forallb
    (fun event => Doubles.editIsSafe event && negb (isSync event))
    events = true ->
  mirrorOf (_requests c) = _buffers c ->
  mirrorOf (_requests (snd (Doubles.onFileEvents events c)))
  = _buffers (snd (Doubles.onFileEvents events c)).
Proof.
  intros [Hsafe Hplain]%forallb_and Hsync.
  rewrite doubles_agree_events by done.
  destruct (mirror_steps events c Hplain) as (live & [Hreq _] & Hm).
  unfold mirrorOf in *. by rewrite Hreq, fold_left_app, Hsync.
Qed.

(** X12.  An observer that subscribes to the stream of [observeFileEvents]
    in the cache in which it was called, and applies every event it
    receives to a copy that starts empty, holds exactly the cache's buffers
    after any sequence of further calls for events that are no Sync and,
    when they are edits, have safe integers as versions. *)
Theorem subscriber_mirrors_buffers (events : list (FileEvent Range)) c i c1 :
  forallb
    (fun event => Doubles.editIsSafe event && negb (isSync event))
    events = true ->
  subscribe (observeFileEvents c) c = (Returns i, c1) ->
  mirrorOf (received i (snd (Doubles.onFileEvents events c1)))
  = _buffers (snd (Doubles.onFileEvents events c1)).
Proof.
  intros [Hsafe Hplain]%forallb_and Hsub.
  rewrite doubles_agree_events by done.
  destruct (mirror_steps events c1 Hplain) as (live & [_ Hlogs] & Hm).
  revert Hlogs Hm. generalize (snd (onFileEvents events c1)).
  intros c2 Hlogs Hm.
  unfold subscribe in Hsub. injection Hsub as <- <-.
  unfold received. rewrite Hlogs. cbn in *.
  rewrite list_lookup_fmap, lookup_app_r, Nat.sub_diag by done.
  cbn. unfold mirrorOf. rewrite fold_left_app.
  unfold observeFileEvents.
  rewrite fold_opens by apply NoDup_fst_map_to_list.
  rewrite (right_id_L ∅ (∪)), list_to_map_to_list.
  exact Hm.
Qed.

End DoublesProperties.

(** ** The cache on JavaScript numbers, at the examples *)

Section DoublesAtTheExamples.

Import OffsetRanges.


(** Further on, at counter 2^53 + 4, an edit that carries the counter
    itself passes every check, is published, and leaves the counter where
    it was; it is accepted again when it is repeated. *)
Example edit_at_the_counter_is_accepted :
  fst (Doubles.onFileEvents
         [AtTheLimit.editAtCounter; AtTheLimit.editAtCounter]
         AtTheLimit.openedFurther)
  = [Returns tt; Returns tt]
  /\ _buffers
       (snd (Doubles.onFileEvents
               [AtTheLimit.editAtCounter; AtTheLimit.editAtCounter]
               AtTheLimit.openedFurther))
     !! "/a"
     = Some {| text := "xxfoo"; changeCount := 9007199254740996 |}
  /\ _requests
       (snd (Doubles.onFileEvents
               [AtTheLimit.editAtCounter; AtTheLimit.editAtCounter]
               AtTheLimit.openedFurther))
     = [LocalOpen (mkFileVersion "/a" 9007199254740996) "foo";
        LocalEdit (mkFileVersion "/a" 9007199254740996)
          (0, 0)%nat "" (0, 1)%nat "x";
        LocalEdit (mkFileVersion "/a" 9007199254740996)
          (0, 0)%nat "" (0, 1)%nat "x"].
Proof. vm_compute. repeat split; reflexivity. Qed.


Lemma throws_exactly_when_witness :
  fst (Doubles.onFileEvent Scenario.openA Scenario.opened)
  = match rejected Scenario.openA Scenario.opened with
    | Some e => Throws e
    | None => Returns tt
    end.
Proof.
  apply (throws_exactly_when Scenario.openA Scenario.opened).
  reflexivity.
Defined.

Lemma throw_changes_nothing_witness :
  snd (Doubles.onFileEvent Scenario.openA Scenario.opened) = Scenario.opened.
Proof.
  apply (throw_changes_nothing Scenario.openA Scenario.opened
           InvariantViolation).
  - reflexivity.
  - vm_compute. reflexivity.
Defined.

Lemma at_most_one_event_witness :
  exists events,
    published Scenario.opened
      (snd (Doubles.onFileEvent Scenario.editA Scenario.opened)) events
    /\ (length events <= 1)%nat
    /\ (events = [] ->
        snd (Doubles.onFileEvent Scenario.editA Scenario.opened)
        = Scenario.opened).
Proof.
  apply (at_most_one_event Scenario.editA Scenario.opened).
  reflexivity.
Defined.

Lemma feed_mirrors_buffers_witness :
  mirrorOf
    (_requests
       (snd (Doubles.onFileEvents
               [Scenario.openA; Scenario.editA;
                FileCloseEvent (mkFileVersion "/b" 1)]
               (constructor (nat * nat)))))
  = _buffers
      (snd (Doubles.onFileEvents
              [Scenario.openA; Scenario.editA;
               FileCloseEvent (mkFileVersion "/b" 1)]
              (constructor (nat * nat)))).
Proof.
  apply (feed_mirrors_buffers
           [Scenario.openA; Scenario.editA;
            FileCloseEvent (mkFileVersion "/b" 1)]
           (constructor (nat * nat))).
  - reflexivity.
  - reflexivity.
Defined.

Lemma subscriber_mirrors_buffers_witness :
  mirrorOf
    (received 0
       (snd (Doubles.onFileEvents
               [Scenario.editA; FileCloseEvent (mkFileVersion "/a" 9)]
               (snd (subscribe (observeFileEvents Scenario.opened)
                       Scenario.opened)))))
  = _buffers
      (snd (Doubles.onFileEvents
              [Scenario.editA; FileCloseEvent (mkFileVersion "/a" 9)]
              (snd (subscribe (observeFileEvents Scenario.opened)
                      Scenario.opened)))).
Proof.
  apply (subscriber_mirrors_buffers
           [Scenario.editA; FileCloseEvent (mkFileVersion "/a" 9)]
           Scenario.opened 0%nat).
  - reflexivity.
  - reflexivity.
Defined.

Lemma dispose_closes_everything_witness :
  exists c',
    dispose
      [("/b", {| text := "second"; changeCount := 4 |});
       ("/a", {| text := "foo"; changeCount := 1 |})]
      Scenario.twoFiles
    = (Returns tt, c')
    /\ _buffers c' = ∅
    /\ published Scenario.twoFiles c'
         [LocalClose (mkFileVersion "/b" 4);
          LocalClose (mkFileVersion "/a" 1)]
    /\ _directoryEvents c' = _directoryEvents Scenario.twoFiles.
Proof.
  apply (dispose_closes_everything Scenario.twoFiles
           [("/b", {| text := "second"; changeCount := 4 |});
            ("/a", {| text := "foo"; changeCount := 1 |})]).
  vm_compute. first [reflexivity | apply perm_swap].
Defined.

End DoublesAtTheExamples.
